(** * Weather screen: the resolve-and-fetch flows of [app/(tabs)/weather.tsx]

    The screen component [TabTwoScreen] owns five pieces of React state and
    three asynchronous flows that write them.  The flows never read the state
    they write (only [handleSearch] reads [inputCity]), so a flow is embedded
    as the ordered log of what it does (state setter calls, awaited external
    calls, console output) together with how it completes.  Replaying the
    setter calls of a log on a state gives the state after the flow.  The
    setter calls a handler makes between two suspensions are applied
    together, so the states of the component are those at the ends of these
    synchronous blocks. *)

From Stdlib Require Import List String Ascii NArith Bool PrimFloat.
Import ListNotations.

Set Warnings "-inexact-float".
Set Implicit Arguments.

Local Open Scope N_scope.
Local Open Scope list_scope.

(** ** JavaScript strings *)

(** A JavaScript string is a sequence of UTF-16 code units. *)
Definition code_unit := N.
Definition jsstring := list code_unit.

(** String literals of the source; all of them are ASCII. *)
Definition lit (s : string) : jsstring :=
  map N_of_ascii (list_ascii_of_string s).

(** ECMAScript WhiteSpace and LineTerminator code points, the ones
    [String.prototype.trim] strips. *)
Definition isWhiteSpace (c : code_unit) : bool :=
  (c =? 0x0009) || (c =? 0x000A) || (c =? 0x000B) || (c =? 0x000C) ||
  (c =? 0x000D) || (c =? 0x0020) || (c =? 0x00A0) || (c =? 0x1680) ||
  ((0x2000 <=? c) && (c <=? 0x200A)) ||
  (c =? 0x2028) || (c =? 0x2029) || (c =? 0x202F) || (c =? 0x205F) ||
  (c =? 0x3000) || (c =? 0xFEFF).

Fixpoint trimStart (s : jsstring) : jsstring :=
  match s with
  | [] => []
  | c :: rest => if isWhiteSpace c then trimStart rest else s
  end.

Definition trimEnd (s : jsstring) : jsstring := rev (trimStart (rev s)).

Definition trim (s : jsstring) : jsstring := trimEnd (trimStart s).

(** Surrogate code units.  A string is well formed when every high
    surrogate is followed by a low one and no low surrogate stands alone;
    [encodeURIComponent] throws a [URIError] on any other string. *)
Definition isHighSurrogate (c : code_unit) : bool :=
  (0xD800 <=? c) && (c <=? 0xDBFF).

Definition isLowSurrogate (c : code_unit) : bool :=
  (0xDC00 <=? c) && (c <=? 0xDFFF).

Fixpoint isWellFormed (s : jsstring) : bool :=
  match s with
  | [] => true
  | c :: rest =>
      if isHighSurrogate c then
        match rest with
        | d :: rest' => isLowSurrogate d && isWellFormed rest'
        | [] => false
        end
      else if isLowSurrogate c then false
      else isWellFormed rest
  end.

(** Truthiness of a string: every string but the empty one. *)
Definition truthy (s : jsstring) : bool :=
  match s with [] => false | _ :: _ => true end.

(** [a || b] on strings. *)
Definition js_or (a b : jsstring) : jsstring := if truthy a then a else b.

(** [a || b] where [a] is a [string | null] field. *)
Definition js_or_null (a : option jsstring) (b : jsstring) : jsstring :=
  match a with
  | Some s => js_or s b
  | None => b
  end.

(** ** Data *)

(** The [weather] state: [{ temperature; windspeed; latitude?; longitude? }]. *)
Record WeatherSnapshot := {
  temperature : float;
  windspeed : float;
  latitude : option float;
  longitude : option float
}.

(** The five [useState] cells of [TabTwoScreen]. *)
Record PresentationState := {
  weather : option WeatherSnapshot;
  loading : bool;
  error : option jsstring;
  city : jsstring;
  inputCity : jsstring
}.

(** The initial values given to [useState]. *)
Definition initialState : PresentationState :=
  {| weather := None; loading := false; error := None;
     city := []; inputCity := [] |}.

(** A thrown value.  The handlers only read its [message].  What [fetch],
    [response.json()] and the location provider reject with, and what the
    flows throw themselves, is an [Error] object, whose [message] is a
    string: this is the contract of the outside world assumed throughout.  A
    rejection with [null] or [undefined], on which reading [message] would
    itself throw inside the [catch] blocks, is outside this model. *)
Module JsError.
Record t := { message : jsstring }.
End JsError.

Definition Error (msg : string) : JsError.t := {| JsError.message := lit msg |}.

(** How an awaited promise ends: it resolves, it rejects, or it never settles
    (nothing in the source puts a timeout on a call). *)
Inductive outcome (A : Type) : Type :=
| Resolved (a : A)
| Rejected (e : JsError.t)
| Pending.
Arguments Rejected {A} e.
Arguments Pending {A}.

(** A [fetch] response: the [ok] flag and what [response.json()] gives. *)
Module Response.
Record t (A : Type) := { ok : bool; json : outcome A }.
Arguments ok {A} _.
Arguments json {A} _.
End Response.

(** Body of the forecast response.  The provider echoes a coordinate of its
    own next to [current_weather].  A body of another shape makes the reads
    of line 29 throw inside the [try]; that run has the events of a rejected
    [json], with the thrown message. *)
Module CurrentWeather.
Record t := { temperature : float; windspeed : float }.
End CurrentWeather.

Module ForecastData.
Record t := {
  latitude : float;
  longitude : float;
  current_weather : CurrentWeather.t
}.
End ForecastData.

(** Body of the geocoding response: [results] may be missing. *)
Module GeoResult.
Record t := { name : jsstring; latitude : float; longitude : float }.
End GeoResult.

Module GeocodingData.
Record t := { results : option (list GeoResult.t) }.
End GeocodingData.

(** [expo-location]: permission status, position and geocoded address. *)
Inductive PermissionStatus := granted | denied | undetermined.

Module Coords.
Record t := { latitude : float; longitude : float }.
End Coords.

Module Place.
Record t := {
  city : option jsstring;
  region : option jsstring;
  country : option jsstring
}.
End Place.

(** The outside world a flow runs against: what each external call answers. *)
Record Env := {
  fetch_forecast : float -> float -> outcome (Response.t ForecastData.t);
  fetch_geocoding : jsstring -> outcome (Response.t GeocodingData.t);
  requestForegroundPermissionsAsync : outcome PermissionStatus;
  getCurrentPositionAsync : outcome Coords.t;
  reverseGeocodeAsync : float -> float -> outcome (option (list Place.t))
}.

(** ** Events and the flow monad *)

(** The awaited calls. *)
Inductive call :=
| FetchForecast (lat lon : float)
| FetchGeocoding (cityName : jsstring)
| ReadJson
| RequestForegroundPermissions
| GetCurrentPosition
| ReverseGeocode (lat lon : float).

Inductive event :=
| SetWeather (w : option WeatherSnapshot)
| SetLoading (b : bool)
| SetError (e : option jsstring)
| SetCity (c : jsstring)
| SetInputCity (t : jsstring)
| Await (c : call)
| LogCoords (c : Coords.t)
| LogPlace (p : Place.t).

(** How a block of statements ends. *)
Inductive completion (A : Type) : Type :=
| Normal (a : A)
| Throw (e : JsError.t)
| Hang.
Arguments Throw {A} e.
Arguments Hang {A}.

Definition M (A : Type) : Type := (list event * completion A)%type.

Definition ret {A} (a : A) : M A := ([], Normal a).

Definition bind {A B} (m : M A) (k : A -> M B) : M B :=
  match m with
  | (l, Normal a) => let '(l', c) := k a in (l ++ l', c)
  | (l, Throw e) => (l, Throw e)
  | (l, Hang) => (l, Hang)
  end.

Notation "x <- m ;; k" := (bind m (fun x => k))
  (at level 61, m at next level, right associativity).
Notation "m ;; k" := (bind m (fun _ => k))
  (at level 61, right associativity).

Definition emit (ev : event) : M unit := ([ev], Normal tt).

Definition throw {A} (e : JsError.t) : M A := ([], Throw e).

(** [await] of an external call. *)
Definition await {A} (c : call) (o : outcome A) : M A :=
  ([Await c],
   match o with
   | Resolved a => Normal a
   | Rejected e => Throw e
   | Pending => Hang
   end).

(** [try { m } catch (err) { h err }] *)
Definition try_catch {A} (m : M A) (h : JsError.t -> M A) : M A :=
  match m with
  | (l, Throw e) => let '(l', c) := h e in (l ++ l', c)
  | _ => m
  end.

(** [try { m } finally { f }]: [f] runs however [m] ends, unless [m] never
    ends; an abrupt end of [f] replaces the completion of [m]. *)
Definition try_finally {A} (m : M A) (f : M unit) : M A :=
  match m with
  | (l, Hang) => (l, Hang)
  | (l, c) =>
      let '(l', c') := f in
      (l ++ l',
       match c' with
       | Normal _ => c
       | Throw e => Throw e
       | Hang => Hang
       end)
  end.

Definition setWeather w := emit (SetWeather w).
Definition setLoading b := emit (SetLoading b).
Definition setError e := emit (SetError e).
Definition setCity c := emit (SetCity c).
Definition setInputCity t := emit (SetInputCity t).

(** ** Replaying a log on the state *)

Definition apply_event (s : PresentationState) (ev : event) : PresentationState :=
  match ev with
  | SetWeather w =>
      {| weather := w; loading := loading s; error := error s;
         city := city s; inputCity := inputCity s |}
  | SetLoading b =>
      {| weather := weather s; loading := b; error := error s;
         city := city s; inputCity := inputCity s |}
  | SetError e =>
      {| weather := weather s; loading := loading s; error := e;
         city := city s; inputCity := inputCity s |}
  | SetCity c =>
      {| weather := weather s; loading := loading s; error := error s;
         city := c; inputCity := inputCity s |}
  | SetInputCity t =>
      {| weather := weather s; loading := loading s; error := error s;
         city := city s; inputCity := t |}
  | Await _ | LogCoords _ | LogPlace _ => s
  end.

Definition run (l : list event) (s : PresentationState) : PresentationState :=
  fold_left apply_event l s.

(** The log of a flow, the state it leaves, and whether it settled. *)
Definition log {A} (m : M A) : list event := fst m.

Definition exec {A} (m : M A) (s : PresentationState) : PresentationState :=
  run (log m) s.

Definition settled {A} (m : M A) : bool :=
  match snd m with
  | Hang => false
  | _ => true
  end.

(** The awaited calls of a log, in order. *)
Definition calls (l : list event) : list call :=
  flat_map (fun ev => match ev with Await c => [c] | _ => [] end) l.

Definition is_fetch_forecast (c : call) : bool :=
  match c with FetchForecast _ _ => true | _ => false end.

(** ** The flows *)

(** [fetchWeatherByCoords], lines 18-39. *)
Definition fetchWeatherByCoords (env : Env) (lat lon : float) : M unit :=
  try_finally
    (try_catch
       (setLoading true ;;
        setError None ;;
        setWeather None ;;
        response <- await (FetchForecast lat lon) (fetch_forecast env lat lon) ;;
        (if negb (Response.ok response)
         then throw (Error "Failed to fetch weather") else ret tt) ;;
        data <- await ReadJson (Response.json response) ;;
        setWeather
          (Some {| temperature :=
                     CurrentWeather.temperature (ForecastData.current_weather data);
                   windspeed :=
                     CurrentWeather.windspeed (ForecastData.current_weather data);
                   latitude := Some lat;
                   longitude := Some lon |}))
       (fun err =>
          setError (Some (js_or (JsError.message err) (lit "Unknown error")))))
    (setLoading false).

(** [encodeURIComponent(cityName)] while the URL of line 48 is built: it
    throws on a string that is not well formed.  The encoded text is not
    modelled: a geocoding request is identified by the name it carries. *)
Definition encodeURIComponent (s : jsstring) : M unit :=
  if isWellFormed s then ret tt else throw (Error "URI malformed").

(** [fetchCoordsByCity], lines 42-61. *)
Definition fetchCoordsByCity (env : Env) (cityName : jsstring) : M unit :=
  try_finally
    (try_catch
       (setLoading true ;;
        setError None ;;
        setWeather None ;;
        encodeURIComponent cityName ;;
        response <- await (FetchGeocoding cityName) (fetch_geocoding env cityName) ;;
        (if negb (Response.ok response)
         then throw (Error "Failed to fetch city coordinates") else ret tt) ;;
        data <- await ReadJson (Response.json response) ;;
        match GeocodingData.results data with
        | None | Some [] => throw (Error "City not found")
        | Some (r :: _) =>
            setCity (GeoResult.name r) ;;
            fetchWeatherByCoords env (GeoResult.latitude r) (GeoResult.longitude r)
        end)
       (fun err =>
          setError (Some (js_or (JsError.message err) (lit "Unknown error")))))
    (setLoading false).

(** The mount effect, lines 64-67. *)
Definition initializeDefault (env : Env) : M unit :=
  setCity (lit "Berlin") ;;
  fetchWeatherByCoords env 52.52%float 13.41%float.

(** [handleSearch], lines 70-74; it reads [inputCity] from the state. *)
Definition handleSearch (env : Env) (s : PresentationState) : M unit :=
  if truthy (trim (inputCity s))
  then fetchCoordsByCity env (trim (inputCity s))
  else ret tt.

(** The label chosen at line 99. *)
Definition placeLabel (place : Place.t) : jsstring :=
  js_or_null (Place.city place)
    (js_or_null (Place.region place)
       (js_or_null (Place.country place) (lit "Your Location"))).

(** The reverse-geocoding block of [handleLocateMe], lines 91-105. *)
Definition reverseGeocodeStep (env : Env) (coords : Coords.t) : M unit :=
  try_catch
    (geoData <- await (ReverseGeocode (Coords.latitude coords) (Coords.longitude coords))
                  (reverseGeocodeAsync env (Coords.latitude coords)
                     (Coords.longitude coords)) ;;
     match geoData with
     | Some (place :: _) =>
         emit (LogPlace place) ;;
         setCity (placeLabel place)
     | Some [] | None => setCity (lit "Your Location")
     end)
    (fun _ => setCity (lit "Your Location")).

(** [handleLocateMe], lines 77-111. *)
Definition handleLocateMe (env : Env) : M unit :=
  try_catch
    (setLoading true ;;
     setError None ;;
     setWeather None ;;
     status <- await RequestForegroundPermissions
                 (requestForegroundPermissionsAsync env) ;;
     match status with
     | granted =>
         coords <- await GetCurrentPosition (getCurrentPositionAsync env) ;;
         emit (LogCoords coords) ;;
         reverseGeocodeStep env coords ;;
         fetchWeatherByCoords env (Coords.latitude coords) (Coords.longitude coords)
     | _ =>
         setError (Some (lit "Permission to access location was denied")) ;;
         setLoading false
     end)
    (fun err =>
       setError (Some (js_or (JsError.message err) (lit "Could not get location"))) ;;
       setLoading false).

(** The three triggers of the screen: the search control, the locate button
    and the mount effect. *)
Inductive trigger := SearchByName | LocateDevice | InitializeDefault.

Definition invoke (env : Env) (t : trigger) (s : PresentationState) : M unit :=
  match t with
  | SearchByName => handleSearch env s
  | LocateDevice => handleLocateMe env
  | InitializeDefault => initializeDefault env
  end.

(** ** The screen *)

(** What the component returns, lines 113-155: the children of the scroll
    view that carry state, in order.  Numbers are kept as numbers, not as
    the text they are printed as. *)
Inductive element :=
| TitleText (text : jsstring)
| InputRow (value : jsstring)
| SubtitleText (text : jsstring)
| LoadingText
| ErrorText (msg : jsstring)
| WeatherView (temperature windspeed : float).

(** [city ? <subtitle> : null], line 143. *)
Definition subtitleElement (s : PresentationState) : option element :=
  if truthy (city s) then Some (SubtitleText (city s)) else None.

(** [loading ? ... : error ? ... : weather ? ... : null], lines 144-153. *)
Definition statusElement (s : PresentationState) : option element :=
  if loading s then Some LoadingText
  else
    match error s with
    | Some (c :: msg) => Some (ErrorText (c :: msg))
    | Some [] | None =>
        match weather s with
        | Some w => Some (WeatherView (temperature w) (windspeed w))
        | None => None
        end
    end.

Definition optional (o : option element) : list element :=
  match o with Some e => [e] | None => [] end.

Definition render (s : PresentationState) : list element :=
  TitleText (lit "Weather") :: InputRow (inputCity s)
    :: optional (subtitleElement s) ++ optional (statusElement s).

(** What the user can do, with the handler each control is wired to:
    [onChangeText], [onSubmitEditing] and the two [onPress], lines 128-141. *)
Inductive intent :=
| ChangeText (text : jsstring)
| SubmitEditing
| PressSearch
| PressLocateMe.

Definition handle (env : Env) (i : intent) (s : PresentationState) : M unit :=
  match i with
  | ChangeText text => setInputCity text
  | SubmitEditing => handleSearch env s
  | PressSearch => handleSearch env s
  | PressLocateMe => handleLocateMe env
  end.

(** ** Vocabulary of the properties *)

(** The states a flow is in each time it suspends on an awaited call. *)
Fixpoint states_at_awaits (l : list event) (s : PresentationState)
  : list PresentationState :=
  match l with
  | [] => []
  | Await _ :: l' => s :: states_at_awaits l' s
  | ev :: l' => states_at_awaits l' (apply_event s ev)
  end.

Definition present {A} (o : option A) : bool :=
  match o with Some _ => true | None => false end.

(** Loading indicator raised while a snapshot or an error is still there. *)
Definition stale_while_loading (s : PresentationState) : bool :=
  loading s && (present (weather s) || present (error s)).

(** The three writes of the Start step, in the order of lines 20-22, 44-46
    and 79-81. *)
Definition start_writes : list event :=
  [SetLoading true; SetError None; SetWeather None].

(** Synchronous blocks.  A handler runs without interruption until it awaits
    or returns, and every return of the handlers comes right after a
    [setLoading(false)] (lines 37, 59, 85, 109).  The setter calls of one
    block are applied together, so the states the component can be seen in
    are those at the ends of blocks. *)
Definition ends_block (ev : event) : bool :=
  match ev with
  | Await _ | SetLoading false => true
  | _ => false
  end.

Fixpoint blocks_from (cur l : list event) : list (list event) :=
  match l with
  | [] => match cur with [] => [] | _ :: _ => [rev cur] end
  | ev :: l' =>
      if ends_block ev then rev (ev :: cur) :: blocks_from [] l'
      else blocks_from (ev :: cur) l'
  end.

Definition blocks (l : list event) : list (list event) := blocks_from [] l.
Arguments blocks : simpl never.

(** The states at the ends of a sequence of blocks. *)
Fixpoint commits (bs : list (list event)) (s : PresentationState)
  : list PresentationState :=
  match bs with
  | [] => []
  | b :: bs' => run b s :: commits bs' (run b s)
  end.

(** A block of some flow, in some world, triggered on some screen, or the
    write of a typed text.  Any run of the component, with any number of
    flows overlapping, is a sequence of such blocks. *)
Definition flow_block (b : list event) : Prop :=
  (exists env t s, In b (blocks (log (invoke env t s)))) \/
  (exists text, b = [SetInputCity text]).

(** The outside world answers: no call stays pending, and the body of an
    [ok] response can be read or fails to be. *)
Definition answered {A} (o : outcome A) : bool :=
  match o with
  | Pending => false
  | _ => true
  end.

Definition response_answered {A} (o : outcome (Response.t A)) : bool :=
  match o with
  | Resolved r => if Response.ok r then answered (Response.json r) else true
  | Rejected _ => true
  | Pending => false
  end.

Definition responsive (env : Env) : Prop :=
  (forall lat lon, response_answered (fetch_forecast env lat lon) = true) /\
  (forall cityName, response_answered (fetch_geocoding env cityName) = true) /\
  answered (requestForegroundPermissionsAsync env) = true /\
  answered (getCurrentPositionAsync env) = true /\
  (forall lat lon, answered (reverseGeocodeAsync env lat lon) = true).

Definition is_set_error (ev : event) : bool :=
  match ev with SetError _ => true | _ => false end.


(** The first candidate when forward geocoding of [cityName] succeeds: the
    name can be encoded and the answer to the request has a candidate. *)
Definition forward_success (env : Env) (cityName : jsstring) : option GeoResult.t :=
  if isWellFormed cityName then
    match fetch_geocoding env cityName with
    | Resolved r =>
        if Response.ok r then
          match Response.json r with
          | Resolved d =>
              match GeocodingData.results d with
              | Some (c :: _) => Some c
              | _ => None
              end
          | _ => None
          end
        else None
    | _ => None
    end
  else None.

(** The message with which the forecast lookup at a coordinate fails, if it
    fails. *)
Definition forecast_failure (env : Env) (lat lon : float) : option jsstring :=
  match fetch_forecast env lat lon with
  | Resolved r =>
      if Response.ok r then
        match Response.json r with
        | Resolved _ => None
        | Rejected e => Some (JsError.message e)
        | Pending => None
        end
      else Some (lit "Failed to fetch weather")
  | Rejected e => Some (JsError.message e)
  | Pending => None
  end.

(** The priority order of the place label in words: the first of city,
    region and country that is there and not empty, else the literal. *)
Definition usable (o : option jsstring) : bool :=
  match o with
  | Some (_ :: _) => true
  | _ => false
  end.

Definition label_by_priority (p : Place.t) : jsstring :=
  match find usable [Place.city p; Place.region p; Place.country p] with
  | Some (Some label) => label
  | _ => lit "Your Location"
  end.

(** The label the reverse-geocoding answer stands for. *)
Definition reverse_label (o : outcome (option (list Place.t))) : jsstring :=
  match o with
  | Resolved (Some (place :: _)) => label_by_priority place
  | _ => lit "Your Location"
  end.

(** The current weather of the response when the forecast lookup at a
    coordinate succeeds. *)
Definition forecast_success (env : Env) (lat lon : float) : option CurrentWeather.t :=
  match fetch_forecast env lat lon with
  | Resolved r =>
      if Response.ok r then
        match Response.json r with
        | Resolved d => Some (ForecastData.current_weather d)
        | _ => None
        end
      else None
  | _ => None
  end.

(** The message with which the locate flow fails before it has a position,
    if it does: the permission request or the position read throws. *)
Definition locate_failure (env : Env) : option jsstring :=
  match requestForegroundPermissionsAsync env with
  | Resolved granted =>
      match getCurrentPositionAsync env with
      | Rejected e => Some (JsError.message e)
      | _ => None
      end
  | Resolved _ => None
  | Rejected e => Some (JsError.message e)
  | Pending => None
  end.

Definition is_fetch_geocoding (c : call) : bool :=
  match c with FetchGeocoding _ => true | _ => false end.

Definition is_read_json (c : call) : bool :=
  match c with ReadJson => true | _ => false end.

Definition is_reverse_geocode (c : call) : bool :=
  match c with ReverseGeocode _ _ => true | _ => false end.

Definition is_location_call (c : call) : bool :=
  match c with
  | RequestForegroundPermissions | GetCurrentPosition | ReverseGeocode _ _ => true
  | _ => false
  end.

(** How many of the awaited calls of a log satisfy [p]. *)
Definition count_calls (p : call -> bool) (l : list event) : nat :=
  List.length (filter p (calls l)).

Definition is_set_input_city (ev : event) : bool :=
  match ev with SetInputCity _ => true | _ => false end.

(** ** Overlapping flows *)

(** Nothing keeps a second flow from starting while a first one is suspended:
    the two logs are then merged, each keeping its own order. *)
Inductive interleaving : list event -> list event -> list event -> Prop :=
| interleaving_nil : interleaving [] [] []
| interleaving_left ev l1 l2 m :
    interleaving l1 l2 m -> interleaving (ev :: l1) l2 (ev :: m)
| interleaving_right ev l1 l2 m :
    interleaving l1 l2 m -> interleaving l1 (ev :: l2) (ev :: m).

(** The state cells and the cell an event writes. *)
Inductive cell := WeatherCell | LoadingCell | ErrorCell | CityCell | InputCityCell.

Definition target (ev : event) : option cell :=
  match ev with
  | SetWeather _ => Some WeatherCell
  | SetLoading _ => Some LoadingCell
  | SetError _ => Some ErrorCell
  | SetCity _ => Some CityCell
  | SetInputCity _ => Some InputCityCell
  | Await _ | LogCoords _ | LogPlace _ => None
  end.

Definition cell_eqb (c c' : cell) : bool :=
  match c, c' with
  | WeatherCell, WeatherCell | LoadingCell, LoadingCell
  | ErrorCell, ErrorCell | CityCell, CityCell
  | InputCityCell, InputCityCell => true
  | _, _ => false
  end.

Definition writes (c : cell) (ev : event) : bool :=
  match target ev with
  | Some c' => cell_eqb c c'
  | None => false
  end.

Definition touches (c : cell) (l : list event) : bool := existsb (writes c) l.

(** Two states hold the same value in a cell. *)
Definition same_cell (c : cell) (s s' : PresentationState) : Prop :=
  match c with
  | WeatherCell => weather s = weather s'
  | LoadingCell => loading s = loading s'
  | ErrorCell => error s = error s'
  | CityCell => city s = city s'
  | InputCityCell => inputCity s = inputCity s'
  end.

(** ** Sample worlds *)

Definition paris : GeoResult.t :=
  {| GeoResult.name := lit "Paris";
     GeoResult.latitude := 48.8566%float;
     GeoResult.longitude := 2.3522%float |}.

Definition paris_forecast : ForecastData.t :=
  {| ForecastData.latitude := 48.86%float;
     ForecastData.longitude := 2.3599997%float;
     ForecastData.current_weather :=
       {| CurrentWeather.temperature := 18.2%float;
          CurrentWeather.windspeed := 9.4%float |} |}.

(** Every lookup answers; location permission is denied. *)
Definition env_paris : Env :=
  {| fetch_forecast := fun _ _ =>
       Resolved {| Response.ok := true; Response.json := Resolved paris_forecast |};
     fetch_geocoding := fun _ =>
       Resolved {| Response.ok := true;
                   Response.json :=
                     Resolved {| GeocodingData.results := Some [paris] |} |};
     requestForegroundPermissionsAsync := Resolved denied;
     getCurrentPositionAsync := Pending;
     reverseGeocodeAsync := fun _ _ => Pending |}.


(** Geocoding answers, the forecast service is down. *)
Definition env_no_forecast : Env :=
  {| fetch_forecast := fun _ _ =>
       Resolved {| Response.ok := false; Response.json := Pending |};
     fetch_geocoding := fun _ =>
       Resolved {| Response.ok := true;
                   Response.json :=
                     Resolved {| GeocodingData.results := Some [paris] |} |};
     requestForegroundPermissionsAsync := Resolved denied;
     getCurrentPositionAsync := Pending;
     reverseGeocodeAsync := fun _ _ => Pending |}.

(** The device is located, reverse geocoding throws. *)
Definition env_located : Env :=
  {| fetch_forecast := fun _ _ =>
       Resolved {| Response.ok := true; Response.json := Resolved paris_forecast |};
     fetch_geocoding := fun _ => Pending;
     requestForegroundPermissionsAsync := Resolved granted;
     getCurrentPositionAsync :=
       Resolved {| Coords.latitude := 48.8566%float;
                   Coords.longitude := 2.3522%float |};
     reverseGeocodeAsync := fun _ _ => Rejected (Error "geocoder unavailable") |}.

(** Geocoding answers, the forecast request never settles. *)
Definition env_hung : Env :=
  {| fetch_forecast := fun _ _ => Pending;
     fetch_geocoding := fun _ =>
       Resolved {| Response.ok := true;
                   Response.json :=
                     Resolved {| GeocodingData.results := Some [paris] |} |};
     requestForegroundPermissionsAsync := Resolved granted;
     getCurrentPositionAsync := Rejected (Error "");
     reverseGeocodeAsync := fun _ _ => Pending |}.

(** The device is located in a place that has only a region name. *)
Definition env_region : Env :=
  {| fetch_forecast := fun _ _ =>
       Resolved {| Response.ok := true; Response.json := Resolved paris_forecast |};
     fetch_geocoding := fun _ =>
       Resolved {| Response.ok := false; Response.json := Pending |};
     requestForegroundPermissionsAsync := Resolved granted;
     getCurrentPositionAsync :=
       Resolved {| Coords.latitude := 48.8566%float;
                   Coords.longitude := 2.3522%float |};
     reverseGeocodeAsync := fun _ _ =>
       Resolved (Some [ {| Place.city := Some [];
                           Place.region := Some (lit "Ile-de-France");
                           Place.country := Some (lit "France") |} ]) |}.

(** Every call is answered, each with a failure. *)
Definition env_failing : Env :=
  {| fetch_forecast := fun _ _ => Rejected (Error "Network request failed");
     fetch_geocoding := fun _ =>
       Resolved {| Response.ok := true;
                   Response.json := Rejected (Error "JSON Parse error") |};
     requestForegroundPermissionsAsync := Resolved granted;
     getCurrentPositionAsync := Rejected (Error "Location unavailable");
     reverseGeocodeAsync := fun _ _ => Rejected (Error "geocoder unavailable") |}.

(** Every call is answered; the lookups succeed. *)
Definition env_sunny : Env :=
  {| fetch_forecast := fun _ _ =>
       Resolved {| Response.ok := true; Response.json := Resolved paris_forecast |};
     fetch_geocoding := fun _ =>
       Resolved {| Response.ok := true;
                   Response.json :=
                     Resolved {| GeocodingData.results := Some [paris] |} |};
     requestForegroundPermissionsAsync := Resolved granted;
     getCurrentPositionAsync :=
       Resolved {| Coords.latitude := 48.8566%float;
                   Coords.longitude := 2.3522%float |};
     reverseGeocodeAsync := fun _ _ => Resolved (Some []) |}.

(** Every call is answered; the forecast request is rejected. *)
Definition env_outage : Env :=
  {| fetch_forecast := fun _ _ => Rejected (Error "Network request failed");
     fetch_geocoding := fun _ =>
       Resolved {| Response.ok := true;
                   Response.json :=
                     Resolved {| GeocodingData.results := Some [paris] |} |};
     requestForegroundPermissionsAsync := Resolved denied;
     getCurrentPositionAsync := Rejected (Error "Location unavailable");
     reverseGeocodeAsync := fun _ _ => Resolved None |}.

(** The state in which the user has typed a name into the search field. *)
Definition typed (text : string) (s : PresentationState) : PresentationState :=
  apply_event s (SetInputCity (lit text)).

(** Two presses of Search on the same text, the second while the first is
    still waiting: the first meets a forecast service that is down, the
    second one that answers.  [race_log] is the run in which the first
    search's failure arrives after the second search has sent its forecast
    request and before that request is answered. *)
Definition first_search : M unit :=
  invoke env_no_forecast SearchByName (typed "Paris" initialState).

Definition second_search : M unit :=
  invoke env_paris SearchByName (typed "Paris" initialState).

Definition race_log : list event :=
  firstn 10 (log first_search) ++ firstn 11 (log second_search)
    ++ skipn 10 (log first_search) ++ skipn 11 (log second_search).

(** The state once the default flow has shown a snapshot. *)
Definition snapshot_shown : PresentationState :=
  exec (initializeDefault env_paris) initialState.


(** ** Proof tools *)

Ltac unfold_flow :=
  unfold invoke, handleSearch, initializeDefault, handleLocateMe,
    reverseGeocodeStep, fetchCoordsByCity, fetchWeatherByCoords,
    encodeURIComponent,
    setWeather, setLoading, setError, setCity, setInputCity,
    try_finally, try_catch, bind, await, emit, throw, ret in *.

(** Case analysis on what the outside world answers. *)
Ltac env_case :=
  match goal with
  | |- context [isWellFormed ?n] =>
      destruct (isWellFormed n) eqn:?
  | |- context [fetch_forecast ?e ?a ?b] =>
      destruct (fetch_forecast e a b) as [[[] [?|?|]]|?|] eqn:?
  | |- context [fetch_geocoding ?e ?n] =>
      destruct (fetch_geocoding e n) as [[[] [[[[|? ?]|]]|?|]]|?|] eqn:?
  | |- context [requestForegroundPermissionsAsync ?e] =>
      destruct (requestForegroundPermissionsAsync e) as [[]|?|] eqn:?
  | |- context [getCurrentPositionAsync ?e] =>
      destruct (getCurrentPositionAsync e) as [?|?|] eqn:?
  | |- context [reverseGeocodeAsync ?e ?a ?b] =>
      destruct (reverseGeocodeAsync e a b) as [[[|? ?]|]|?|] eqn:?
  end.

Ltac env_cases := unfold_flow; cbn; repeat (env_case; cbn in *).

(** ** Trimming *)

Lemma trimStart_blank (t : jsstring) :
  forallb isWhiteSpace t = true -> trimStart t = [].
Proof.
  induction t as [|c t IH]; cbn; [reflexivity|].
  intros H. apply andb_prop in H as [Hc Ht]. rewrite Hc. auto.
Qed.

Lemma trimStart_nil_blank (t : jsstring) :
  trimStart t = [] -> forallb isWhiteSpace t = true.
Proof.
  induction t as [|c t IH]; cbn; [reflexivity|].
  destruct (isWhiteSpace c); [auto | discriminate].
Qed.

Lemma trimStart_all_blank (t : jsstring) :
  forallb isWhiteSpace (trimStart t) = true -> forallb isWhiteSpace t = true.
Proof.
  induction t as [|c t IH]; cbn; [reflexivity|].
  destruct (isWhiteSpace c) eqn:Hc; cbn; [auto|].
  rewrite Hc. discriminate.
Qed.

Lemma forallb_rev_blank (t : jsstring) :
  forallb isWhiteSpace (rev t) = true -> forallb isWhiteSpace t = true.
Proof.
  rewrite !forallb_forall. intros H x Hx. apply H, in_rev.
  rewrite rev_involutive. exact Hx.
Qed.

(** A text trims to the empty string exactly when it is empty or made of
    white space only. *)
Lemma trim_empty_iff (t : jsstring) :
  trim t = [] <-> forallb isWhiteSpace t = true.
Proof.
  unfold trim, trimEnd. split.
  - intros H.
    assert (H' : trimStart (rev (trimStart t)) = []).
    { destruct (trimStart (rev (trimStart t))) as [|a l]; [reflexivity|].
      apply (f_equal (@List.length code_unit)) in H.
      rewrite length_rev in H. discriminate. }
    apply trimStart_all_blank, forallb_rev_blank, trimStart_nil_blank, H'.
  - intros H. rewrite (trimStart_blank _ H). reflexivity.
Qed.

Lemma handleSearch_named env s cityName :
  trim (inputCity s) = cityName -> truthy cityName = true ->
  handleSearch env s = fetchCoordsByCity env cityName.
Proof.
  intros H1 H2. unfold handleSearch. rewrite H1, H2. reflexivity.
Qed.

(** No flow writes the search field. *)
Lemma inputCity_preserved env t s :
  inputCity (exec (invoke env t s) s) = inputCity s.
Proof.
  destruct t; cbn [invoke].
  - unfold handleSearch. destruct (truthy (trim (inputCity s))); [|reflexivity].
    generalize (trim (inputCity s)). intros n. env_cases; reflexivity.
  - env_cases; reflexivity.
  - env_cases; reflexivity.
Qed.

(** ** Properties of the flows *)

(** A call that stays pending contradicts a world that answers. *)
Ltac unanswered :=
  match goal with
  | H : false = true |- _ => discriminate H
  | H : forall lat lon, response_answered (fetch_forecast ?e lat lon) = true,
    E : fetch_forecast ?e ?a ?b = _ |- _ =>
      specialize (H a b); rewrite E in H; discriminate H
  | H : forall n, response_answered (fetch_geocoding ?e n) = true,
    E : fetch_geocoding ?e ?a = _ |- _ =>
      specialize (H a); rewrite E in H; discriminate H
  | H : forall lat lon, answered (reverseGeocodeAsync ?e lat lon) = true,
    E : reverseGeocodeAsync ?e ?a ?b = _ |- _ =>
      specialize (H a b); rewrite E in H; discriminate H
  | H : answered (requestForegroundPermissionsAsync ?e) = true,
    E : requestForegroundPermissionsAsync ?e = _ |- _ =>
      rewrite E in H; discriminate H
  | H : answered (getCurrentPositionAsync ?e) = true,
    E : getCurrentPositionAsync ?e = _ |- _ =>
      rewrite E in H; discriminate H
  end.

(** In a world that answers every call, with a success or with a failure,
    every flow settles. *)
Lemma responsive_flow_settles env t s :
  responsive env -> settled (invoke env t s) = true.
Proof.
  intros (Hf & Hg & Hp & Hc & Hr). destruct t; cbn [invoke].
  - unfold handleSearch. destruct (truthy (trim (inputCity s)));
      [|reflexivity].
    generalize (trim (inputCity s)). intros n.
    env_cases; solve [reflexivity | unanswered].
  - env_cases; solve [reflexivity | unanswered].
  - env_cases; solve [reflexivity | unanswered].
Qed.

(** C1. A started flow settles whenever the outside world answers its calls,
    with a success or with a failure at the Resolve or the Fetch step; and a
    flow that has settled leaves [loading] false: the search flow and the
    default flow through their [finally] blocks, the locate flow through its
    early return, its [catch] block or the [finally] of the weather fetch. *)
Theorem loading_false_after_settle env t s :
  (t = SearchByName -> truthy (trim (inputCity s)) = true) ->
  (responsive env -> settled (invoke env t s) = true) /\
  (settled (invoke env t s) = true ->
   loading (exec (invoke env t s) s) = false).
Proof.
  intros Ht. split; [apply responsive_flow_settles|].
  intros Hs. destruct t; cbn [invoke] in *.
  - unfold handleSearch in *. rewrite (Ht eq_refl) in *.
    revert Hs. generalize (trim (inputCity s)). intros n.
    env_cases; solve [reflexivity | discriminate].
  - revert Hs. env_cases; solve [reflexivity | discriminate].
  - revert Hs. env_cases; solve [reflexivity | discriminate].
Qed.

Lemma responsive_env_failing : responsive env_failing.
Proof. repeat split. Defined.

Lemma loading_false_after_settle_witness :
  (SearchByName = SearchByName ->
   truthy (trim (inputCity (typed " Paris " initialState))) = true) /\
  settled (invoke env_failing SearchByName (typed " Paris " initialState)) = true /\
  loading (exec (invoke env_failing SearchByName (typed " Paris " initialState))
             (typed " Paris " initialState)) = false.
Proof.
  split; [reflexivity|].
  pose proof (@loading_false_after_settle env_failing SearchByName
                (typed " Paris " initialState) (fun _ => eq_refl)) as [H1 H2].
  split; [exact (H1 responsive_env_failing)|].
  exact (H2 (H1 responsive_env_failing)).
Defined.

(** Each block of each flow keeps the screen free of a loading indicator
    next to a snapshot or an error, whatever state it is applied to. *)
Ltac calm_blocks :=
  unfold blocks; cbn [blocks_from ends_block rev app];
  repeat (constructor;
          [intros [? ? ? ? ?] ?; cbn in *; solve [reflexivity | assumption]|]);
  constructor.

Lemma flow_blocks_keep_calm env t s0 :
  Forall (fun b => forall s, stale_while_loading s = false ->
                   stale_while_loading (run b s) = false)
    (blocks (log (invoke env t s0))).
Proof.
  destruct t; cbn [invoke].
  - unfold handleSearch. destruct (truthy (trim (inputCity s0)));
      [|constructor].
    generalize (trim (inputCity s0)). intros n.
    env_cases; calm_blocks.
  - env_cases; calm_blocks.
  - env_cases; calm_blocks.
Qed.

Lemma flow_block_keeps_calm b :
  flow_block b ->
  forall s, stale_while_loading s = false -> stale_while_loading (run b s) = false.
Proof.
  intros [(env & t & s0 & Hb)|(text & ->)].
  - exact (proj1 (Forall_forall _ _) (flow_blocks_keep_calm env t s0) b Hb).
  - intros [? ? ? ? ?] H. exact H.
Qed.

Lemma commits_keep_calm bs :
  Forall flow_block bs ->
  forall s, stale_while_loading s = false ->
  Forall (fun s' => stale_while_loading s' = false) (commits bs s).
Proof.
  induction 1 as [|b bs Hb _ IH]; intros s Hs; cbn; constructor.
  - apply flow_block_keeps_calm; assumption.
  - apply IH. apply flow_block_keeps_calm; assumption.
Qed.

(** C2, as stated, fails.  The Start step of the locate flow calls
    [setLoading(true)] first and clears [error] and [weather] after it, not
    before; so do the Start steps of the search flow and of the weather
    fetch. *)
Lemma loading_raised_before_clearing :
  present (weather snapshot_shown) = true /\
  nth_error (log (invoke env_paris LocateDevice snapshot_shown)) 0
    = Some (SetLoading true) /\
  nth_error (log (invoke env_paris LocateDevice snapshot_shown)) 1
    = Some (SetError None) /\
  nth_error (log (invoke env_paris LocateDevice snapshot_shown)) 2
    = Some (SetWeather None) /\
  firstn 3 (log (invoke env_paris SearchByName (typed "Paris" snapshot_shown)))
    = [SetLoading true; SetError None; SetWeather None] /\
  firstn 3 (tl (log (invoke env_paris InitializeDefault snapshot_shown)))
    = [SetLoading true; SetError None; SetWeather None].
Proof. repeat split; reflexivity. Qed.

Ltac first_block :=
  split; [reflexivity|];
  unfold blocks; cbn [blocks_from ends_block rev app hd_error];
  eexists; reflexivity.

(** C2, amended.  Every flow opens with the three Start writes in the order
    [loading := true], [error := null], [weather := null] (the default flow
    has written [city] just before), and the three are in one synchronous
    block, the first of the flow.  Every block of a flow that raises
    [loading] also clears [error] and [weather], and every block that stores
    a snapshot or an error also lowers [loading]; so from a screen that does
    not show the loading indicator next to a snapshot or an error, no
    sequence of blocks of any flows, overlapping in any way, reaches a state
    that does. *)
Theorem start_block_raises_and_clears env :
  (forall lat lon,
     firstn 3 (log (fetchWeatherByCoords env lat lon)) = start_writes /\
     exists rest,
       hd_error (blocks (log (fetchWeatherByCoords env lat lon)))
         = Some (start_writes ++ rest)) /\
  (forall cityName,
     firstn 3 (log (fetchCoordsByCity env cityName)) = start_writes /\
     exists rest,
       hd_error (blocks (log (fetchCoordsByCity env cityName)))
         = Some (start_writes ++ rest)) /\
  (firstn 3 (log (handleLocateMe env)) = start_writes /\
   exists rest,
     hd_error (blocks (log (handleLocateMe env))) = Some (start_writes ++ rest)) /\
  (firstn 4 (log (initializeDefault env)) = SetCity (lit "Berlin") :: start_writes /\
   exists rest,
     hd_error (blocks (log (initializeDefault env)))
       = Some (SetCity (lit "Berlin") :: start_writes ++ rest)) /\
  stale_while_loading initialState = false /\
  (forall bs s,
     Forall flow_block bs ->
     stale_while_loading s = false ->
     Forall (fun s' => stale_while_loading s' = false) (commits bs s)).
Proof.
  split; [|split; [|split; [|split; [|split]]]].
  - intros lat lon. env_cases; first_block.
  - intros n. env_cases; first_block.
  - env_cases; first_block.
  - env_cases; first_block.
  - reflexivity.
  - intros bs s Hbs Hs. apply commits_keep_calm; assumption.
Qed.

(** The blocks of a search and of the mount flow, which overlap when the
    user searches before the first lookup has come back. *)
Lemma start_block_raises_and_clears_witness :
  Forall flow_block
    (firstn 2 (blocks (log (invoke env_paris InitializeDefault initialState)))
     ++ blocks (log (invoke env_no_forecast SearchByName (typed "Paris" initialState)))
     ++ skipn 2 (blocks (log (invoke env_paris InitializeDefault initialState)))) /\
  Forall (fun s' => stale_while_loading s' = false)
    (commits
       (firstn 2 (blocks (log (invoke env_paris InitializeDefault initialState)))
        ++ blocks (log (invoke env_no_forecast SearchByName (typed "Paris" initialState)))
        ++ skipn 2 (blocks (log (invoke env_paris InitializeDefault initialState))))
       (typed "Paris" initialState)).
Proof.
  assert (H : Forall flow_block
    (firstn 2 (blocks (log (invoke env_paris InitializeDefault initialState)))
     ++ blocks (log (invoke env_no_forecast SearchByName (typed "Paris" initialState)))
     ++ skipn 2 (blocks (log (invoke env_paris InitializeDefault initialState))))).
  { apply Forall_app; split.
    - apply Forall_forall. intros b Hb.
      left. exists env_paris, InitializeDefault, initialState.
      unfold blocks in *. cbn in Hb |- *. tauto.
    - apply Forall_app; split.
      + apply Forall_forall. intros b Hb.
        left. exists env_no_forecast, SearchByName, (typed "Paris" initialState).
        exact Hb.
      + apply Forall_forall. intros b Hb.
        left. exists env_paris, InitializeDefault, initialState.
        unfold blocks in *. cbn in Hb |- *. tauto. }
  split; [exact H|].
  apply (proj2 (proj2 (proj2 (proj2 (proj2
           (start_block_raises_and_clears env_paris))))) _ _ H).
  reflexivity.
Defined.

(** C3. A search with an empty or white-space-only text does nothing: no
    setter is called, no call is awaited, and the state is the one before. *)
Theorem blank_search_is_noop env s :
  forallb isWhiteSpace (inputCity s) = true ->
  invoke env SearchByName s = ([], Normal tt) /\
  calls (log (invoke env SearchByName s)) = [] /\
  exec (invoke env SearchByName s) s = s.
Proof.
  intros H. apply trim_empty_iff in H.
  assert (E : invoke env SearchByName s = ([], Normal tt)).
  { cbn [invoke]. unfold handleSearch. rewrite H. reflexivity. }
  rewrite E. repeat split.
Qed.

Lemma blank_search_is_noop_witness :
  forallb isWhiteSpace (inputCity (typed "   " initialState)) = true /\
  exec (invoke env_paris SearchByName (typed "   " initialState))
    (typed "   " initialState) = typed "   " initialState.
Proof.
  split; [reflexivity|].
  apply (@blank_search_is_noop env_paris (typed "   " initialState)).
  reflexivity.
Defined.

(** C4. When the permission request answers anything but [granted], the
    locate flow settles with the denial message in [error], [loading] false
    and [weather] absent, and the permission request is the only call it
    makes: no position read, no reverse geocoding, no forecast lookup. *)
Theorem permission_denied_stops_locate env s status :
  requestForegroundPermissionsAsync env = Resolved status ->
  status <> granted ->
  settled (invoke env LocateDevice s) = true /\
  calls (log (invoke env LocateDevice s)) = [RequestForegroundPermissions] /\
  error (exec (invoke env LocateDevice s) s)
    = Some (lit "Permission to access location was denied") /\
  loading (exec (invoke env LocateDevice s) s) = false /\
  weather (exec (invoke env LocateDevice s) s) = None /\
  city (exec (invoke env LocateDevice s) s) = city s.
Proof.
  intros Hp Hs. cbn [invoke]. unfold_flow. rewrite Hp.
  destruct status; [contradiction| |]; cbn; repeat split.
Qed.

Lemma permission_denied_stops_locate_witness :
  requestForegroundPermissionsAsync env_paris = Resolved denied /\
  denied <> granted /\
  error (exec (invoke env_paris LocateDevice initialState) initialState)
    = Some (lit "Permission to access location was denied").
Proof.
  split; [reflexivity|]. split; [discriminate|].
  apply (@permission_denied_stops_locate env_paris initialState denied);
    [reflexivity | discriminate].
Defined.

(** The label computed at line 99 follows the priority order. *)
Lemma placeLabel_priority (p : Place.t) : placeLabel p = label_by_priority p.
Proof.
  destruct p as [[[|? ?]|] [[|? ?]|] [[|? ?]|]]; reflexivity.
Qed.

Lemma label_by_priority_nonempty (p : Place.t) : label_by_priority p <> [].
Proof.
  destruct p as [[[|? ?]|] [[|? ?]|] [[|? ?]|]]; discriminate.
Qed.

Lemma reverse_label_nonempty o : reverse_label o <> [].
Proof.
  destruct o as [[[|p ?]|]|?|]; cbn; try discriminate.
  apply label_by_priority_nonempty.
Qed.

(** C5. Once permission is granted and the position is read, whatever the
    reverse geocoder answers (records, no record, nothing, or an exception)
    the sub-step completes normally and writes no error; [city] becomes the
    label picked by the priority order city, region, country, literal, which
    is never empty; the flow goes on to the forecast lookup at the device
    coordinate, and the flow's [error] is the one that lookup alone gives. *)
Theorem reverse_geocode_never_fails env s coords :
  requestForegroundPermissionsAsync env = Resolved granted ->
  getCurrentPositionAsync env = Resolved coords ->
  reverseGeocodeAsync env (Coords.latitude coords) (Coords.longitude coords)
    <> Pending ->
  snd (reverseGeocodeStep env coords) = Normal tt /\
  existsb is_set_error (log (reverseGeocodeStep env coords)) = false /\
  city (exec (reverseGeocodeStep env coords) s)
    = reverse_label (reverseGeocodeAsync env (Coords.latitude coords)
                       (Coords.longitude coords)) /\
  city (exec (invoke env LocateDevice s) s)
    = reverse_label (reverseGeocodeAsync env (Coords.latitude coords)
                       (Coords.longitude coords)) /\
  city (exec (invoke env LocateDevice s) s) <> [] /\
  In (FetchForecast (Coords.latitude coords) (Coords.longitude coords))
    (calls (log (invoke env LocateDevice s))) /\
  error (exec (invoke env LocateDevice s) s)
    = error (exec (fetchWeatherByCoords env (Coords.latitude coords)
                     (Coords.longitude coords)) s).
Proof.
  intros Hp Hc Hr.
  assert (Hcity : city (exec (invoke env LocateDevice s) s)
    = reverse_label (reverseGeocodeAsync env (Coords.latitude coords)
                       (Coords.longitude coords))).
  { cbn [invoke]. unfold_flow. rewrite Hp, Hc. cbn.
    destruct (reverseGeocodeAsync env _ _) as [[[|p ?]|]|?|];
      try contradiction; cbn; rewrite ?placeLabel_priority;
      env_cases; reflexivity. }
  split; [|split; [|split; [|split; [|split; [|split]]]]].
  - unfold_flow.
    destruct (reverseGeocodeAsync env _ _) as [[[|p ?]|]|?|];
      try contradiction; reflexivity.
  - unfold_flow.
    destruct (reverseGeocodeAsync env _ _) as [[[|p ?]|]|?|];
      try contradiction; reflexivity.
  - unfold_flow.
    destruct (reverseGeocodeAsync env _ _) as [[[|p ?]|]|?|];
      try contradiction; cbn; rewrite ?placeLabel_priority; reflexivity.
  - exact Hcity.
  - rewrite Hcity. apply reverse_label_nonempty.
  - cbn [invoke]. unfold_flow. rewrite Hp, Hc. cbn.
    destruct (reverseGeocodeAsync env _ _) as [[[|p ?]|]|?|];
      try contradiction; env_cases; auto 10.
  - cbn [invoke]. unfold_flow. rewrite Hp, Hc. cbn.
    destruct (reverseGeocodeAsync env _ _) as [[[|p ?]|]|?|];
      try contradiction; env_cases; reflexivity.
Qed.

Lemma reverse_geocode_never_fails_witness :
  requestForegroundPermissionsAsync env_located = Resolved granted /\
  reverseGeocodeAsync env_located 48.8566%float 2.3522%float
    = Rejected (Error "geocoder unavailable") /\
  city (exec (invoke env_located LocateDevice initialState) initialState)
    = lit "Your Location" /\
  error (exec (invoke env_located LocateDevice initialState) initialState) = None.
Proof.
  split; [reflexivity|]. split; [reflexivity|].
  pose proof (@reverse_geocode_never_fails env_located initialState
                {| Coords.latitude := 48.8566%float;
                   Coords.longitude := 2.3522%float |}
                eq_refl eq_refl) as H.
  split.
  - apply H. discriminate.
  - apply H. discriminate.
Defined.

(** C6. A forecast lookup that succeeds stores the temperature and wind speed
    of the response next to the coordinate the lookup was called with,
    whatever coordinate the response carries.  In the Paris scenario the
    search ends with the city Paris, that snapshot, [loading] false and no
    error. *)
Theorem snapshot_stamped_with_input_coordinate env s :
  (forall lat lon d,
     fetch_forecast env lat lon
       = Resolved {| Response.ok := true; Response.json := Resolved d |} ->
     settled (fetchWeatherByCoords env lat lon) = true /\
     weather (exec (fetchWeatherByCoords env lat lon) s)
       = Some {| temperature :=
                   CurrentWeather.temperature (ForecastData.current_weather d);
                 windspeed :=
                   CurrentWeather.windspeed (ForecastData.current_weather d);
                 latitude := Some lat;
                 longitude := Some lon |}) /\
  (forall rest d,
     trim (inputCity s) = lit "Paris" ->
     fetch_geocoding env (lit "Paris")
       = Resolved {| Response.ok := true;
                     Response.json :=
                       Resolved {| GeocodingData.results := Some (paris :: rest) |} |} ->
     fetch_forecast env 48.8566%float 2.3522%float
       = Resolved {| Response.ok := true; Response.json := Resolved d |} ->
     ForecastData.current_weather d
       = {| CurrentWeather.temperature := 18.2%float;
            CurrentWeather.windspeed := 9.4%float |} ->
     settled (invoke env SearchByName s) = true /\
     exec (invoke env SearchByName s) s
       = {| weather := Some {| temperature := 18.2%float;
                               windspeed := 9.4%float;
                               latitude := Some 48.8566%float;
                               longitude := Some 2.3522%float |};
            loading := false;
            error := None;
            city := lit "Paris";
            inputCity := inputCity s |}).
Proof.
  split.
  - intros lat lon d H. unfold_flow. rewrite H. cbn. split; reflexivity.
  - intros rest d Ht Hg Hf Hd. cbn [invoke].
    rewrite (@handleSearch_named env s (lit "Paris") Ht eq_refl).
    unfold_flow. rewrite Hg. cbn. rewrite Hf. cbn. rewrite Hd.
    split; reflexivity.
Qed.

Lemma snapshot_stamped_with_input_coordinate_witness :
  ForecastData.latitude paris_forecast <> 48.8566%float /\
  exec (invoke env_paris SearchByName (typed "Paris" initialState))
    (typed "Paris" initialState)
    = {| weather := Some {| temperature := 18.2%float;
                            windspeed := 9.4%float;
                            latitude := Some 48.8566%float;
                            longitude := Some 2.3522%float |};
         loading := false;
         error := None;
         city := lit "Paris";
         inputCity := lit "Paris" |}.
Proof.
  split.
  - intros H. apply (f_equal (fun x => PrimFloat.eqb x 48.8566%float)) in H.
    vm_compute in H. discriminate.
  - apply (proj2 (@snapshot_stamped_with_input_coordinate env_paris
                    (typed "Paris" initialState)) [] paris_forecast);
      reflexivity.
Defined.

(** C7. The default flow writes the city Berlin first, before the Start
    writes and before any lookup, so [city] is Berlin however the lookup
    ends; when the forecast lookup succeeds the flow settles with a snapshot
    at 52.52 / 13.41. *)
Theorem default_flow_sets_berlin env s :
  hd_error (log (invoke env InitializeDefault s)) = Some (SetCity (lit "Berlin")) /\
  city (exec (invoke env InitializeDefault s) s) = lit "Berlin" /\
  calls (log (invoke env InitializeDefault s)) <> [] /\
  (forall d,
     fetch_forecast env 52.52%float 13.41%float
       = Resolved {| Response.ok := true; Response.json := Resolved d |} ->
     settled (invoke env InitializeDefault s) = true /\
     loading (exec (invoke env InitializeDefault s) s) = false /\
     error (exec (invoke env InitializeDefault s) s) = None /\
     exists w,
       weather (exec (invoke env InitializeDefault s) s) = Some w /\
       latitude w = Some 52.52%float /\
       longitude w = Some 13.41%float).
Proof.
  repeat split.
  - env_cases; reflexivity.
  - env_cases; reflexivity.
  - env_cases; discriminate.
  - cbn [invoke]. unfold_flow. rewrite H. reflexivity.
  - cbn [invoke]. unfold_flow. rewrite H. reflexivity.
  - cbn [invoke]. unfold_flow. rewrite H. reflexivity.
  - cbn [invoke]. unfold_flow. rewrite H. cbn.
    eexists. repeat split.
Qed.

Lemma default_flow_sets_berlin_witness :
  fetch_forecast env_paris 52.52%float 13.41%float
    = Resolved {| Response.ok := true; Response.json := Resolved paris_forecast |} /\
  city (exec (invoke env_paris InitializeDefault initialState) initialState)
    = lit "Berlin" /\
  loading (exec (invoke env_paris InitializeDefault initialState) initialState)
    = false.
Proof.
  split; [reflexivity|]. split.
  - apply (@default_flow_sets_berlin env_paris initialState).
  - apply (@default_flow_sets_berlin env_paris initialState) with (d := paris_forecast).
    reflexivity.
Defined.



(** The search flow overwrites every cell but the search field once its
    geocoding has a candidate, so what it leaves does not depend on the
    cells it started from. *)
Lemma resolved_search_forgets env cityName r s s' :
  forward_success env cityName = Some r ->
  inputCity s = inputCity s' ->
  exec (fetchCoordsByCity env cityName) s = exec (fetchCoordsByCity env cityName) s'.
Proof.
  intros Hf Hi. destruct s, s'. cbn in Hi. subst.
  unfold forward_success in Hf. unfold_flow.
  destruct (isWellFormed cityName); [|discriminate Hf].
  destruct (fetch_geocoding env cityName) as [[[] [[[[|c cs]|]]|e|]]|e|];
    cbn in Hf; try discriminate.
  cbn. env_cases; reflexivity.
Qed.

(** *** Last writer wins *)

Lemma same_cell_refl c s : same_cell c s s.
Proof. destruct c; reflexivity. Qed.

Lemma same_cell_sym c s s' : same_cell c s s' -> same_cell c s' s.
Proof. destruct c; cbn; congruence. Qed.

Lemma same_cell_trans c s s' s'' :
  same_cell c s s' -> same_cell c s' s'' -> same_cell c s s''.
Proof. destruct c; cbn; congruence. Qed.

Lemma same_cells_eq s s' : (forall c, same_cell c s s') -> s = s'.
Proof.
  intros H. destruct s, s'.
  pose proof (H WeatherCell). pose proof (H LoadingCell).
  pose proof (H ErrorCell). pose proof (H CityCell).
  pose proof (H InputCityCell). cbn in *. congruence.
Qed.

(** An event that does not write a cell leaves it as it is. *)
Lemma apply_event_other c ev s :
  writes c ev = false -> same_cell c (apply_event s ev) s.
Proof. destruct c, ev; cbn; intros H; try discriminate; reflexivity. Qed.

(** An event that writes a cell decides its value alone. *)
Lemma apply_event_writes c ev s s' :
  writes c ev = true -> same_cell c (apply_event s ev) (apply_event s' ev).
Proof. destruct c, ev; cbn; intros H; try discriminate; reflexivity. Qed.

Lemma run_same_cell c l : forall s s',
  same_cell c s s' -> same_cell c (run l s) (run l s').
Proof.
  induction l as [|ev l IH]; intros s s' H; cbn; [exact H|].
  apply IH. destruct c, ev; cbn in *; congruence.
Qed.

Lemma run_untouched c l : forall s,
  touches c l = false -> same_cell c (run l s) s.
Proof.
  induction l as [|ev l IH]; intros s H; cbn in *.
  - apply same_cell_refl.
  - apply orb_false_elim in H as [Hev Hl].
    eapply same_cell_trans; [apply IH, Hl | apply apply_event_other, Hev].
Qed.

Lemma run_touched c l : forall s s',
  touches c l = true -> same_cell c (run l s) (run l s').
Proof.
  unfold touches.
  induction l as [|ev l IH]; intros s s' H; cbn in *; [discriminate|].
  destruct (existsb (writes c) l) eqn:Hl.
  - apply IH. reflexivity.
  - rewrite orb_false_r in H. apply run_same_cell.
    apply apply_event_writes, H.
Qed.

(** In a merge of two logs each cell ends as one of the two logs leaves it. *)
Lemma interleaving_cell c l1 l2 m :
  interleaving l1 l2 m ->
  forall s,
    (touches c l1 = false /\ touches c l2 = false /\ same_cell c (run m s) s) \/
    (touches c l1 = true /\ same_cell c (run m s) (run l1 s)) \/
    (touches c l2 = true /\ same_cell c (run m s) (run l2 s)).
Proof.
  induction 1 as [|ev l1 l2 m H IH|ev l1 l2 m H IH]; intros s.
  - left. repeat split. apply same_cell_refl.
  - cbn [run fold_left touches existsb].
    destruct (IH (apply_event s ev)) as [(H1 & H2 & E)|[(H1 & E)|(H2 & E)]].
    + fold (touches c l1). rewrite H1, orb_false_r.
      destruct (writes c ev) eqn:Hev.
      * right. left. split; [reflexivity|].
        eapply same_cell_trans; [exact E|].
        apply same_cell_sym, run_untouched, H1.
      * left. repeat split; [exact H2|].
        eapply same_cell_trans; [exact E | apply apply_event_other, Hev].
    + right. left. fold (touches c l1). rewrite H1, orb_true_r.
      split; [reflexivity | exact E].
    + right. right. split; [exact H2|].
      eapply same_cell_trans; [exact E | apply run_touched, H2].
  - cbn [run fold_left touches existsb].
    destruct (IH (apply_event s ev)) as [(H1 & H2 & E)|[(H1 & E)|(H2 & E)]].
    + fold (touches c l2). rewrite H2, orb_false_r.
      destruct (writes c ev) eqn:Hev.
      * right. right. split; [reflexivity|].
        eapply same_cell_trans; [exact E|].
        apply same_cell_sym, run_untouched, H2.
      * left. repeat split; [exact H1|].
        eapply same_cell_trans; [exact E | apply apply_event_other, Hev].
    + right. left. split; [exact H1|].
      eapply same_cell_trans; [exact E | apply run_touched, H1].
    + right. right. fold (touches c l2). rewrite H2, orb_true_r.
      split; [reflexivity | exact E].
Qed.

(** Two overlapping runs of one log leave what a single run leaves. *)
Lemma interleaving_same_log l m s :
  interleaving l l m -> run m s = run l s.
Proof.
  intros H. apply same_cells_eq. intros c.
  destruct (interleaving_cell c H s) as [(H1 & _ & E)|[(_ & E)|(_ & E)]];
    try exact E.
  eapply same_cell_trans; [exact E|].
  apply same_cell_sym, run_untouched, H1.
Qed.

(** C9, amended.  Two searches for the same resolvable name, the second
    started once the first has settled, in worlds that answer: both settle,
    and after the second [loading] is false, exactly one of [weather] and
    [error] is set, and the state is the one the second search alone would
    have left, even if the world answers the two searches differently.  The
    same state is reached when the two searches overlap and meet the same
    answers, however their steps are merged. *)
Theorem repeated_search_matches_second env1 env2 s cityName r :
  trim (inputCity s) = cityName ->
  truthy cityName = true ->
  forward_success env2 cityName = Some r ->
  responsive env1 ->
  responsive env2 ->
  settled (invoke env1 SearchByName s) = true /\
  settled (invoke env2 SearchByName (exec (invoke env1 SearchByName s) s)) = true /\
  loading (exec (invoke env2 SearchByName (exec (invoke env1 SearchByName s) s))
             (exec (invoke env1 SearchByName s) s)) = false /\
  xorb
    (present (weather
       (exec (invoke env2 SearchByName (exec (invoke env1 SearchByName s) s))
          (exec (invoke env1 SearchByName s) s))))
    (present (error
       (exec (invoke env2 SearchByName (exec (invoke env1 SearchByName s) s))
          (exec (invoke env1 SearchByName s) s)))) = true /\
  exec (invoke env2 SearchByName (exec (invoke env1 SearchByName s) s))
    (exec (invoke env1 SearchByName s) s)
    = exec (invoke env2 SearchByName s) s /\
  (forall m,
     interleaving (log (invoke env2 SearchByName s))
       (log (invoke env2 SearchByName s)) m ->
     run m s = exec (invoke env2 SearchByName s) s).
Proof.
  intros Hn Ht Hf Hr1 Hr2.
  pose proof (responsive_flow_settles SearchByName s Hr1) as H1.
  pose proof (responsive_flow_settles SearchByName
                (exec (invoke env1 SearchByName s) s) Hr2) as H2.
  split; [exact H1|]. split; [exact H2|].
  pose proof (inputCity_preserved env1 SearchByName s) as Hi.
  revert H2 Hi. generalize (exec (invoke env1 SearchByName s) s). intros s1 H2 Hi.
  cbn [invoke] in *.
  assert (Hn1 : trim (inputCity s1) = cityName) by (rewrite Hi; exact Hn).
  rewrite (handleSearch_named env2 s1 Hn1 Ht) in *.
  rewrite (handleSearch_named env2 s Hn Ht).
  rewrite (@resolved_search_forgets env2 cityName r s1 s Hf Hi).
  split; [|split; [|split; [reflexivity|]]];
    [| |intros m Hm; apply interleaving_same_log, Hm].
  - revert H2. clear - Hf. unfold forward_success in Hf. unfold_flow.
    destruct (isWellFormed cityName); [|discriminate Hf].
    destruct (fetch_geocoding env2 cityName) as [[[] [[[[|c cs]|]]|e|]]|e|];
      cbn in Hf; try discriminate.
    cbn. env_cases; solve [reflexivity | discriminate].
  - revert H2. clear - Hf. unfold forward_success in Hf. unfold_flow.
    destruct (isWellFormed cityName); [|discriminate Hf].
    destruct (fetch_geocoding env2 cityName) as [[[] [[[[|c cs]|]]|e|]]|e|];
      cbn in Hf; try discriminate.
    cbn. env_cases; solve [reflexivity | discriminate].
Qed.

Lemma responsive_env_sunny : responsive env_sunny.
Proof. repeat split. Defined.

Lemma responsive_env_outage : responsive env_outage.
Proof. repeat split. Defined.

Lemma repeated_search_matches_second_witness :
  forward_success env_sunny (lit "Paris") = Some paris /\
  forward_success env_outage (lit "Paris") = Some paris /\
  exec (invoke env_outage SearchByName
          (exec (invoke env_sunny SearchByName (typed "Paris" initialState))
             (typed "Paris" initialState)))
    (exec (invoke env_sunny SearchByName (typed "Paris" initialState))
       (typed "Paris" initialState))
    = exec (invoke env_outage SearchByName (typed "Paris" initialState))
        (typed "Paris" initialState).
Proof.
  split; [reflexivity|]. split; [reflexivity|].
  apply (@repeated_search_matches_second env_sunny env_outage
           (typed "Paris" initialState) (lit "Paris") paris
           eq_refl eq_refl eq_refl responsive_env_sunny responsive_env_outage).
Defined.

Lemma interleaving_left_only l : interleaving l [] l.
Proof. induction l; constructor; assumption. Qed.

Lemma interleaving_right_only l : interleaving [] l l.
Proof. induction l; constructor; assumption. Qed.

Lemma interleaving_app l1 l2 m l1' l2' m' :
  interleaving l1 l2 m -> interleaving l1' l2' m' ->
  interleaving (l1 ++ l1') (l2 ++ l2') (m ++ m').
Proof.
  induction 1; intros H'; cbn; [exact H'| |]; constructor; auto.
Qed.

(** C9, as stated, fails.  [handleSearch] does not wait for the flow it
    starts, so two presses in immediate sequence overlap.  Both searches
    resolve the name and both settle; the first one's forecast failure is
    stored after the second has cleared [error] and before the second stores
    its snapshot.  The run ends with [loading] false and with both [error]
    and [weather] set, which is not what the second search alone leaves. *)
Lemma overlapping_searches_leave_both :
  forward_success env_no_forecast (lit "Paris") = Some paris /\
  forward_success env_paris (lit "Paris") = Some paris /\
  settled first_search = true /\
  settled second_search = true /\
  interleaving (log first_search) (log second_search) race_log /\
  loading (run race_log (typed "Paris" initialState)) = false /\
  present (weather (run race_log (typed "Paris" initialState))) = true /\
  error (run race_log (typed "Paris" initialState))
    = Some (lit "Failed to fetch weather") /\
  error (exec second_search (typed "Paris" initialState)) = None /\
  run race_log (typed "Paris" initialState)
    <> exec second_search (typed "Paris" initialState).
Proof.
  repeat split.
  - change (interleaving
              (firstn 10 (log first_search) ++ [] ++ skipn 10 (log first_search) ++ [])
              ([] ++ firstn 11 (log second_search) ++ [] ++ skipn 11 (log second_search))
              race_log).
    unfold race_log.
    repeat apply interleaving_app;
      first [apply interleaving_left_only | apply interleaving_right_only].
  - intros H. apply (f_equal error) in H. discriminate H.
Qed.

(** C10. A search whose geocoding has a candidate and whose forecast lookup
    fails is not rolled back: it settles with [city] set to the candidate's
    name whatever it was before, the forecast failure's message in [error]
    (the generic message when it has none), [weather] absent and [loading]
    false. *)
Theorem failed_fetch_keeps_resolved_city env s cityName r msg :
  trim (inputCity s) = cityName ->
  truthy cityName = true ->
  forward_success env cityName = Some r ->
  forecast_failure env (GeoResult.latitude r) (GeoResult.longitude r) = Some msg ->
  settled (invoke env SearchByName s) = true /\
  city (exec (invoke env SearchByName s) s) = GeoResult.name r /\
  error (exec (invoke env SearchByName s) s)
    = Some (js_or msg (lit "Unknown error")) /\
  (truthy msg = true -> error (exec (invoke env SearchByName s) s) = Some msg) /\
  weather (exec (invoke env SearchByName s) s) = None /\
  loading (exec (invoke env SearchByName s) s) = false.
Proof.
  intros Hn Ht Hf Hw. cbn [invoke]. rewrite (handleSearch_named env s Hn Ht).
  unfold forward_success in Hf. unfold forecast_failure in Hw. unfold_flow.
  destruct (isWellFormed cityName); [|discriminate Hf].
  destruct (fetch_geocoding env cityName) as [[[] [[[[|c cs]|]]|e|]]|e|];
    cbn in Hf; try discriminate.
  injection Hf as ->. cbn.
  destruct (fetch_forecast env _ _) as [[[] [?|?|]]|?|];
    cbn in Hw; try discriminate; injection Hw as <-; cbn;
    repeat split; unfold js_or; intros ->; reflexivity.
Qed.

Lemma failed_fetch_keeps_resolved_city_witness :
  forward_success env_no_forecast (lit "Paris") = Some paris /\
  forecast_failure env_no_forecast 48.8566%float 2.3522%float
    = Some (lit "Failed to fetch weather") /\
  city snapshot_shown = lit "Berlin" /\
  city (exec (invoke env_no_forecast SearchByName (typed "Paris" snapshot_shown))
          (typed "Paris" snapshot_shown)) = lit "Paris" /\
  error (exec (invoke env_no_forecast SearchByName (typed "Paris" snapshot_shown))
           (typed "Paris" snapshot_shown)) = Some (lit "Failed to fetch weather").
Proof.
  split; [reflexivity|]. split; [reflexivity|]. split; [reflexivity|].
  pose proof (@failed_fetch_keeps_resolved_city env_no_forecast
                (typed "Paris" snapshot_shown) (lit "Paris") paris
                (lit "Failed to fetch weather")
                eq_refl eq_refl eq_refl eq_refl) as H.
  split; [apply H | apply (proj1 (proj2 (proj2 H)))].
Defined.

(** ** What the screen shows *)

(** X1. In a flow that runs on its own, with no other flow writing the
    state meanwhile, the status line is the loading text at each of the
    flow's awaited calls: neither an error nor a snapshot is shown. *)
Theorem suspended_flow_shows_loading env t s :
  Forall (fun s' => statusElement s' = Some LoadingText)
    (states_at_awaits (log (invoke env t s)) s).
Proof.
  destruct t; cbn [invoke].
  - unfold handleSearch. destruct (truthy (trim (inputCity s))).
    + generalize (trim (inputCity s)). intros n.
      env_cases; repeat constructor.
    + constructor.
  - env_cases; repeat constructor.
  - env_cases; repeat constructor.
Qed.

Ltac show_result :=
  cbn;
  repeat match goal with
         | |- context [JsError.message ?e] =>
             destruct (JsError.message e) as [|? ?]; cbn
         end;
  first
    [ left; eexists; (split; [|split; [reflexivity|split; reflexivity]]);
      discriminate
    | right; eexists; (split; [|split; reflexivity]); reflexivity ].

(** X2. A started flow that runs on its own, with no other flow writing
    the state meanwhile, settles whenever the outside world answers its
    calls; and once it has settled the status line is either an error text
    with a message that is not empty, and there is no snapshot, or the
    weather view of the stored snapshot, and there is no error.  It is never
    the loading text and never missing. *)
Theorem settled_flow_shows_result env t s :
  (t = SearchByName -> truthy (trim (inputCity s)) = true) ->
  (responsive env -> settled (invoke env t s) = true) /\
  (settled (invoke env t s) = true ->
   (exists msg,
      msg <> [] /\
      statusElement (exec (invoke env t s) s) = Some (ErrorText msg) /\
      error (exec (invoke env t s) s) = Some msg /\
      weather (exec (invoke env t s) s) = None) \/
   (exists w,
      statusElement (exec (invoke env t s) s)
        = Some (WeatherView (temperature w) (windspeed w)) /\
      weather (exec (invoke env t s) s) = Some w /\
      error (exec (invoke env t s) s) = None)).
Proof.
  intros Ht. split; [apply responsive_flow_settles|].
  intros Hs. destruct t; cbn [invoke] in *.
  - unfold handleSearch in *. rewrite (Ht eq_refl) in *.
    revert Hs. generalize (trim (inputCity s)). intros n.
    env_cases; intros Hs; try discriminate Hs; show_result.
  - revert Hs. env_cases; intros Hs; try discriminate Hs; show_result.
  - revert Hs. env_cases; intros Hs; try discriminate Hs; show_result.
Qed.

Lemma settled_flow_shows_result_witness :
  (LocateDevice = SearchByName ->
   truthy (trim (inputCity snapshot_shown)) = true) /\
  settled (invoke env_failing LocateDevice snapshot_shown) = true /\
  statusElement (exec (invoke env_failing LocateDevice snapshot_shown) snapshot_shown)
    = Some (ErrorText (lit "Location unavailable")).
Proof.
  split; [discriminate|].
  pose proof (@settled_flow_shows_result env_failing LocateDevice snapshot_shown)
    as H.
  destruct H as [H1 H2]; [discriminate|].
  split; [exact (H1 responsive_env_failing)|].
  destruct (H2 (H1 responsive_env_failing)) as [(msg & _ & H & _)|(w & H & _)];
    exact eq_refl.
Defined.



(** X5. Only typing writes the search field: the log of a flow has no write
    to [inputCity], so the text stays in the input row whatever the flow
    does, and typing changes nothing but that text. *)
Theorem flows_keep_search_text env t s text :
  existsb is_set_input_city (log (invoke env t s)) = false /\
  inputCity (exec (invoke env t s) s) = inputCity s /\
  In (InputRow (inputCity s)) (render (exec (invoke env t s) s)) /\
  exec (handle env (ChangeText text) s) s
    = {| weather := weather s; loading := loading s; error := error s;
         city := city s; inputCity := text |}.
Proof.
  split; [|split; [|split]].
  - destruct t; cbn [invoke].
    + unfold handleSearch. destruct (truthy (trim (inputCity s)));
        [|reflexivity].
      generalize (trim (inputCity s)). intros n. env_cases; reflexivity.
    + env_cases; reflexivity.
    + env_cases; reflexivity.
  - apply inputCity_preserved.
  - unfold render. rewrite inputCity_preserved. right. left. reflexivity.
  - reflexivity.
Qed.

(** X6. A flow never repeats a lookup: its log has at most one forecast
    request, at most one geocoding request and at most one of each call to
    the location provider; only the search flow asks the geocoding service
    and only the locate flow asks the location provider. *)
Theorem at_most_one_lookup_each env t s :
  (count_calls is_fetch_forecast (log (invoke env t s)) <= 1)%nat /\
  (count_calls is_fetch_geocoding (log (invoke env t s)) <= 1)%nat /\
  (count_calls is_reverse_geocode (log (invoke env t s)) <= 1)%nat /\
  (count_calls is_location_call (log (invoke env t s)) <= 3)%nat /\
  (count_calls is_read_json (log (invoke env t s)) <= 2)%nat /\
  (t <> SearchByName ->
   count_calls is_fetch_geocoding (log (invoke env t s)) = 0%nat) /\
  (t <> LocateDevice ->
   count_calls is_location_call (log (invoke env t s)) = 0%nat).
Proof.
  destruct t; cbn [invoke].
  - unfold handleSearch. destruct (truthy (trim (inputCity s))).
    + generalize (trim (inputCity s)). intros n.
      env_cases; unfold count_calls; cbn; repeat split;
        solve [repeat constructor | congruence].
    + unfold count_calls; cbn; repeat split;
        solve [repeat constructor | congruence].
  - env_cases; unfold count_calls; cbn; repeat split;
      solve [repeat constructor | congruence].
  - env_cases; unfold count_calls; cbn; repeat split;
      solve [repeat constructor | congruence].
Qed.

(** ** Failures and how the flows compose *)

(** X7. When the permission request or the position read throws, the locate
    flow settles with the thrown message in [error], or "Could not get
    location" when the message is empty; [loading] is false, [weather] is
    absent, [city] is as before, and neither the reverse geocoder nor the
    forecast service is asked. *)
Theorem locate_failure_before_position env s msg :
  locate_failure env = Some msg ->
  settled (invoke env LocateDevice s) = true /\
  error (exec (invoke env LocateDevice s) s)
    = Some (js_or msg (lit "Could not get location")) /\
  loading (exec (invoke env LocateDevice s) s) = false /\
  weather (exec (invoke env LocateDevice s) s) = None /\
  city (exec (invoke env LocateDevice s) s) = city s /\
  count_calls is_reverse_geocode (log (invoke env LocateDevice s)) = 0%nat /\
  count_calls is_fetch_forecast (log (invoke env LocateDevice s)) = 0%nat.
Proof.
  intros Hf. cbn [invoke]. unfold locate_failure in Hf. unfold_flow.
  destruct (requestForegroundPermissionsAsync env) as [[]|e|];
    try discriminate Hf.
  - destruct (getCurrentPositionAsync env) as [c|e|]; try discriminate Hf.
    injection Hf as <-. cbn. repeat split.
  - injection Hf as <-. cbn. repeat split.
Qed.

Lemma locate_failure_before_position_witness :
  locate_failure env_hung = Some [] /\
  error (exec (invoke env_hung LocateDevice snapshot_shown) snapshot_shown)
    = Some (lit "Could not get location") /\
  city (exec (invoke env_hung LocateDevice snapshot_shown) snapshot_shown)
    = lit "Berlin".
Proof.
  split; [reflexivity|].
  pose proof (@locate_failure_before_position env_hung snapshot_shown []
                eq_refl) as H.
  split; [apply (proj1 (proj2 H)) | apply (proj1 (proj2 (proj2 (proj2 (proj2 H)))))].
Defined.

(** X8. A search whose geocoding has a candidate is the Start writes, the
    geocoding request, the read of its body and the write of the first
    candidate's name to [city], followed by the whole weather fetch at that
    candidate's coordinate and, if that fetch settles, one more lowering of
    [loading].  The other candidates play no part, and the search completes
    as the fetch does. *)
Theorem resolved_search_runs_the_fetch env s cityName r :
  trim (inputCity s) = cityName ->
  truthy cityName = true ->
  forward_success env cityName = Some r ->
  log (invoke env SearchByName s)
    = [SetLoading true; SetError None; SetWeather None;
       Await (FetchGeocoding cityName); Await ReadJson;
       SetCity (GeoResult.name r)]
      ++ log (fetchWeatherByCoords env (GeoResult.latitude r) (GeoResult.longitude r))
      ++ (if settled (fetchWeatherByCoords env (GeoResult.latitude r)
                        (GeoResult.longitude r))
          then [SetLoading false] else []) /\
  snd (invoke env SearchByName s)
    = snd (fetchWeatherByCoords env (GeoResult.latitude r) (GeoResult.longitude r)).
Proof.
  intros Hn Ht Hf. cbn [invoke]. rewrite (handleSearch_named env s Hn Ht).
  unfold forward_success in Hf. unfold_flow.
  destruct (isWellFormed cityName); [|discriminate Hf].
  destruct (fetch_geocoding env cityName) as [[[] [[[[|c cs]|]]|e|]]|e|];
    cbn in Hf; try discriminate.
  injection Hf as ->. cbn.
  destruct (fetch_forecast env _ _) as [[[] [?|?|]]|?|]; cbn; split; reflexivity.
Qed.

Lemma resolved_search_runs_the_fetch_witness :
  trim (inputCity (typed " Paris" initialState)) = lit "Paris" /\
  forward_success env_hung (lit "Paris") = Some paris /\
  snd (invoke env_hung SearchByName (typed " Paris" initialState)) = Hang.
Proof.
  split; [reflexivity|]. split; [reflexivity|].
  apply (@resolved_search_runs_the_fetch env_hung (typed " Paris" initialState)
           (lit "Paris") paris); reflexivity.
Defined.

(** X9. A locate flow with permission, a position, a reverse geocoder that
    answers or throws, and a forecast lookup that succeeds settles in the
    state with the place label in [city], the snapshot stamped with the
    device coordinate, [loading] false and no error; its log is the opening
    of the flow followed by the reverse-geocoding step and the weather
    fetch. *)
Theorem locate_success_state env s coords cw :
  requestForegroundPermissionsAsync env = Resolved granted ->
  getCurrentPositionAsync env = Resolved coords ->
  reverseGeocodeAsync env (Coords.latitude coords) (Coords.longitude coords)
    <> Pending ->
  forecast_success env (Coords.latitude coords) (Coords.longitude coords)
    = Some cw ->
  settled (invoke env LocateDevice s) = true /\
  exec (invoke env LocateDevice s) s
    = {| weather := Some {| temperature := CurrentWeather.temperature cw;
                            windspeed := CurrentWeather.windspeed cw;
                            latitude := Some (Coords.latitude coords);
                            longitude := Some (Coords.longitude coords) |};
         loading := false;
         error := None;
         city := reverse_label
                   (reverseGeocodeAsync env (Coords.latitude coords)
                      (Coords.longitude coords));
         inputCity := inputCity s |} /\
  log (invoke env LocateDevice s)
    = [SetLoading true; SetError None; SetWeather None;
       Await RequestForegroundPermissions; Await GetCurrentPosition;
       LogCoords coords]
      ++ log (reverseGeocodeStep env coords)
      ++ log (fetchWeatherByCoords env (Coords.latitude coords)
                (Coords.longitude coords)).
Proof.
  intros Hp Hc Hr Hf. cbn [invoke]. unfold forecast_success in Hf.
  unfold_flow. rewrite Hp, Hc. cbn.
  destruct (reverseGeocodeAsync env _ _) as [[[|p ?]|]|?|];
    try contradiction; cbn; rewrite ?placeLabel_priority;
    destruct (fetch_forecast env _ _) as [[[] [?|?|]]|?|];
    cbn in Hf; try discriminate Hf; injection Hf as <-;
    cbn; repeat split.
Qed.

Lemma locate_success_state_witness :
  forecast_success env_region 48.8566%float 2.3522%float
    = Some (ForecastData.current_weather paris_forecast) /\
  city (exec (invoke env_region LocateDevice initialState) initialState)
    = lit "Ile-de-France" /\
  In (SubtitleText (lit "Ile-de-France"))
    (render (exec (invoke env_region LocateDevice initialState) initialState)).
Proof.
  split; [reflexivity|].
  pose proof (@locate_success_state env_region initialState
                {| Coords.latitude := 48.8566%float;
                   Coords.longitude := 2.3522%float |}
                (ForecastData.current_weather paris_forecast)
                eq_refl eq_refl) as H.
  assert (E : exec (invoke env_region LocateDevice initialState) initialState
              = exec (invoke env_region LocateDevice initialState) initialState)
    by reflexivity.
  rewrite (proj1 (proj2 (H ltac:(discriminate) eq_refl))) in E at 2.
  rewrite E. split; [reflexivity|]. cbn. right. right. left. reflexivity.
Defined.

(** X10. A response that is not [ok] is never read: the forecast flow then
    makes its request only and stores exactly "Failed to fetch weather", and
    the search flow, for a name that can be encoded, makes the geocoding
    request only, stores exactly "Failed to fetch city coordinates" and
    leaves [city] alone. *)
Theorem not_ok_response_is_not_read env s :
  (forall lat lon r,
     fetch_forecast env lat lon = Resolved r ->
     Response.ok r = false ->
     calls (log (fetchWeatherByCoords env lat lon)) = [FetchForecast lat lon] /\
     exec (fetchWeatherByCoords env lat lon) s
       = {| weather := None; loading := false;
            error := Some (lit "Failed to fetch weather");
            city := city s; inputCity := inputCity s |}) /\
  (forall cityName r,
     isWellFormed cityName = true ->
     fetch_geocoding env cityName = Resolved r ->
     Response.ok r = false ->
     calls (log (fetchCoordsByCity env cityName)) = [FetchGeocoding cityName] /\
     exec (fetchCoordsByCity env cityName) s
       = {| weather := None; loading := false;
            error := Some (lit "Failed to fetch city coordinates");
            city := city s; inputCity := inputCity s |}).
Proof.
  split.
  - intros lat lon [ok body] Hr Hok. cbn in Hok. subst ok.
    unfold_flow. rewrite Hr. cbn. split; reflexivity.
  - intros n [ok body] Hw Hr Hok. cbn in Hok. subst ok.
    unfold_flow. rewrite Hw, Hr. cbn. split; reflexivity.
Qed.

Lemma not_ok_response_is_not_read_witness :
  isWellFormed (lit "Paris") = true /\
  fetch_geocoding env_region (lit "Paris")
    = Resolved {| Response.ok := false; Response.json := Pending |} /\
  error (exec (fetchCoordsByCity env_region (lit "Paris")) snapshot_shown)
    = Some (lit "Failed to fetch city coordinates") /\
  settled (fetchCoordsByCity env_region (lit "Paris")) = true.
Proof.
  split; [reflexivity|]. split; [reflexivity|]. split; [|reflexivity].
  rewrite (proj2 (proj2 (@not_ok_response_is_not_read env_region snapshot_shown)
                    (lit "Paris") _ eq_refl eq_refl eq_refl)).
  reflexivity.
Defined.

(** X11. What a started flow leaves in [weather], [error] and [loading]
    does not depend on what these cells held before: nothing of an earlier
    outcome survives a new flow, even one that hangs. *)
Theorem started_flow_forgets_previous_outcome env t s s' :
  inputCity s = inputCity s' ->
  (t = SearchByName -> truthy (trim (inputCity s)) = true) ->
  weather (exec (invoke env t s) s) = weather (exec (invoke env t s') s') /\
  error (exec (invoke env t s) s) = error (exec (invoke env t s') s') /\
  loading (exec (invoke env t s) s) = loading (exec (invoke env t s') s').
Proof.
  intros Hi Ht. destruct t; cbn [invoke].
  - unfold handleSearch. rewrite <- Hi. rewrite (Ht eq_refl).
    generalize (trim (inputCity s)). intros n. env_cases; repeat split.
  - env_cases; repeat split.
  - env_cases; repeat split.
Qed.

Lemma started_flow_forgets_previous_outcome_witness :
  inputCity (typed "Paris" initialState) = inputCity (typed "Paris" snapshot_shown) /\
  weather (exec (invoke env_no_forecast SearchByName (typed "Paris" snapshot_shown))
             (typed "Paris" snapshot_shown)) = None.
Proof.
  split; [reflexivity|].
  rewrite <- (proj1 (@started_flow_forgets_previous_outcome env_no_forecast
                       SearchByName (typed "Paris" initialState)
                       (typed "Paris" snapshot_shown) eq_refl
                       (fun _ => eq_refl))).
  reflexivity.
Defined.

(** X12. After a search, [city] is the name of the first candidate when the
    text is not blank, can be encoded and the geocoding had a candidate,
    whether the forecast lookup then succeeds, fails or hangs, and is what it
    was before in every other case. *)
Theorem search_city_follows_geocoding env s :
  city (exec (invoke env SearchByName s) s)
    = match forward_success env (trim (inputCity s)) with
      | Some r => if truthy (trim (inputCity s)) then GeoResult.name r else city s
      | None => city s
      end.
Proof.
  cbn [invoke]. unfold handleSearch, forward_success.
  destruct (truthy (trim (inputCity s))).
  - generalize (trim (inputCity s)). intros n. env_cases; reflexivity.
  - destruct (isWellFormed _); [|reflexivity].
    destruct (fetch_geocoding env _) as [[[] [[[[|c cs]|]]|e|]]|e|]; reflexivity.
Qed.

(** ** The name a search looks up *)











(** ** Overlapping flows, once settled *)

Lemma started_flow_writes_loading env t s :
  (t = SearchByName -> truthy (trim (inputCity s)) = true) ->
  touches LoadingCell (log (invoke env t s)) = true.
Proof.
  intros Ht. destruct t; cbn [invoke].
  - unfold handleSearch. rewrite (Ht eq_refl).
    generalize (trim (inputCity s)). intros n. env_cases; reflexivity.
  - env_cases; reflexivity.
  - env_cases; reflexivity.
Qed.

Lemma settled_flow_lowers_loading env t s s0 :
  settled (invoke env t s) = true ->
  touches LoadingCell (log (invoke env t s)) = true ->
  loading (run (log (invoke env t s)) s0) = false.
Proof.
  intros Hs Hw. destruct t; cbn [invoke] in *.
  - unfold handleSearch in *. destruct (truthy (trim (inputCity s)));
      [|discriminate Hw].
    clear Hw. revert Hs. generalize (trim (inputCity s)). intros n.
    env_cases; solve [reflexivity | discriminate].
  - clear Hw. revert Hs. env_cases; solve [reflexivity | discriminate].
  - clear Hw. revert Hs. env_cases; solve [reflexivity | discriminate].
Qed.

(** X14. Two flows started from the same screen, against any two worlds and
    with their steps merged in any order: once both have settled, [loading]
    is false, provided at least the first was really started. *)
Theorem overlapping_flows_end_not_loading env1 env2 t1 t2 s m :
  (t1 = SearchByName -> truthy (trim (inputCity s)) = true) ->
  settled (invoke env1 t1 s) = true ->
  settled (invoke env2 t2 s) = true ->
  interleaving (log (invoke env1 t1 s)) (log (invoke env2 t2 s)) m ->
  loading (run m s) = false.
Proof.
  intros Ht H1 H2 Hm.
  pose proof (@started_flow_writes_loading env1 t1 s Ht) as Hw.
  destruct (interleaving_cell LoadingCell Hm s)
    as [(Hn & _ & _)|[(_ & E)|(Hw2 & E)]].
  - congruence.
  - cbn in E. rewrite E. apply settled_flow_lowers_loading; assumption.
  - cbn in E. rewrite E. apply settled_flow_lowers_loading; assumption.
Qed.

Lemma overlapping_flows_end_not_loading_witness :
  interleaving
    (log (invoke env_no_forecast SearchByName (typed "Paris" initialState)))
    (log (invoke env_paris LocateDevice (typed "Paris" initialState)))
    (log (invoke env_no_forecast SearchByName (typed "Paris" initialState))
       ++ log (invoke env_paris LocateDevice (typed "Paris" initialState))) /\
  loading
    (run (log (invoke env_no_forecast SearchByName (typed "Paris" initialState))
            ++ log (invoke env_paris LocateDevice (typed "Paris" initialState)))
       (typed "Paris" initialState)) = false.
Proof.
  assert (H : interleaving
    (log (invoke env_no_forecast SearchByName (typed "Paris" initialState)))
    (log (invoke env_paris LocateDevice (typed "Paris" initialState)))
    (log (invoke env_no_forecast SearchByName (typed "Paris" initialState))
       ++ log (invoke env_paris LocateDevice (typed "Paris" initialState)))).
  { rewrite <- (app_nil_r (log (invoke env_no_forecast SearchByName
                                  (typed "Paris" initialState)))) at 1.
    rewrite <- (app_nil_l (log (invoke env_paris LocateDevice
                                  (typed "Paris" initialState)))) at 1.
    apply interleaving_app;
      [apply interleaving_left_only | apply interleaving_right_only]. }
  split; [exact H|].
  apply (@overlapping_flows_end_not_loading env_no_forecast env_paris
           SearchByName LocateDevice (typed "Paris" initialState) _
           (fun _ => eq_refl) eq_refl eq_refl H).
Defined.

(** ** The subtitle *)

(** X15. The subtitle follows [city]: after the mount effect it reads
    Berlin in every world, also when the lookup fails or hangs; after a
    locate flow that has its position and an answer or an exception from the
    reverse geocoder it is the place label, so it is never hidden, whatever
    the forecast lookup does. *)
Theorem subtitle_after_default_and_locate env s :
  subtitleElement (exec (invoke env InitializeDefault s) s)
    = Some (SubtitleText (lit "Berlin")) /\
  (forall coords,
     requestForegroundPermissionsAsync env = Resolved granted ->
     getCurrentPositionAsync env = Resolved coords ->
     reverseGeocodeAsync env (Coords.latitude coords) (Coords.longitude coords)
       <> Pending ->
     subtitleElement (exec (invoke env LocateDevice s) s)
       = Some (SubtitleText
                 (reverse_label
                    (reverseGeocodeAsync env (Coords.latitude coords)
                       (Coords.longitude coords))))).
Proof.
  split.
  - env_cases; reflexivity.
  - intros coords Hp Hc Hr.
    assert (Hcity : city (exec (invoke env LocateDevice s) s)
      = reverse_label (reverseGeocodeAsync env (Coords.latitude coords)
                         (Coords.longitude coords))).
    { cbn [invoke]. unfold_flow. rewrite Hp, Hc. cbn.
      destruct (reverseGeocodeAsync env _ _) as [[[|p ?]|]|?|];
        try contradiction; cbn; rewrite ?placeLabel_priority;
        env_cases; reflexivity. }
    unfold subtitleElement. rewrite Hcity.
    pose proof (reverse_label_nonempty
                  (reverseGeocodeAsync env (Coords.latitude coords)
                     (Coords.longitude coords))) as Hne.
    destruct (reverse_label _); [contradiction | reflexivity].
Qed.

Lemma subtitle_after_default_and_locate_witness :
  requestForegroundPermissionsAsync env_located = Resolved granted /\
  subtitleElement (exec (invoke env_located LocateDevice snapshot_shown) snapshot_shown)
    = Some (SubtitleText (lit "Your Location")).
Proof.
  split; [reflexivity|].
  apply (proj2 (@subtitle_after_default_and_locate env_located snapshot_shown)
           {| Coords.latitude := 48.8566%float;
              Coords.longitude := 2.3522%float |});
    [reflexivity | reflexivity | discriminate].
Defined.
